(** * web3-utils.js: address and unit helpers of the Aragon client

    A shallow embedding of [src/web3-utils.js].  JavaScript strings are
    sequences of UTF-16 code units, absent arguments are [undefined], and
    an operation that raises is a [Throw] completion. *)

From Stdlib Require Import ZArith NArith QArith Qround Lia List.
From Stdlib Require Strings.String Strings.Ascii.
From Stdlib Require Decimal DecimalString.
From stdpp Require Import base option list gmap.
Import String.StringSyntax.
Delimit Scope string_scope with string.

Local Open Scope Z_scope.

(** ** JavaScript strings *)

(** A string is the list of its UTF-16 code units; [length] is the
    JavaScript [length] property. *)
Abbreviation jsstring := (list N).

(** A literal written with Basic Latin characters only (one code unit per
    character). *)
Definition js (s : String.string) : jsstring :=
  map Ascii.N_of_ascii (String.list_ascii_of_string s).
Arguments js s%_string.

(** U+2026 HORIZONTAL ELLIPSIS, the single code unit of the literal in
    [shortenAddress]. *)
Definition ellipsis : jsstring := [8230%N].

Definition jslength (s : jsstring) : Z := Z.of_nat (length s).

(** [s[i]]: the code unit at index [i]; out of range the access gives
    [undefined], here [None]. *)
Definition code_unit_at (s : jsstring) (i : Z) : option N :=
  if i <? 0 then None else s !! Z.to_nat i.

Fixpoint indexOf_from (s : jsstring) (c : N) (i : Z) : Z :=
  match s with
  | [] => -1
  | x :: r => if N.eqb x c then i else indexOf_from r c (i + 1)
  end.

(** [s.indexOf(c)] for a search string of one code unit. *)
Definition indexOf (s : jsstring) (c : N) : Z := indexOf_from s c 0.

Definition clamp (len i : Z) : Z := Z.min (Z.max i 0) len.

(** [s.substring(start, end)]: both ends clamped to [0, length], swapped
    when out of order. *)
Definition substring (s : jsstring) (start end_ : Z) : jsstring :=
  let len := jslength s in
  let fs := clamp len start in
  let fe := clamp len end_ in
  let from := Z.min fs fe in
  let to := Z.max fs fe in
  take (Z.to_nat (to - from)) (drop (Z.to_nat from) s).

(** A relative index of [slice]: negative counts from the end. *)
Definition relative (len i : Z) : Z :=
  if i <? 0 then Z.max (len + i) 0 else Z.min i len.

(** [s.slice(start, end)]; [end_ = None] is the omitted argument. *)
Definition slice (s : jsstring) (start : Z) (end_ : option Z) : jsstring :=
  let len := jslength s in
  let from := relative len start in
  let to := match end_ with Some e => relative len e | None => len end in
  take (Z.to_nat (Z.max (to - from) 0)) (drop (Z.to_nat from) s).

(** *** Case conversion

    [toLowerCase] and [toUpperCase] follow the Unicode default case
    conversion.  The tables below cover the Basic Latin and Latin-1
    Supplement blocks (U+0000 to U+00FF), where hexadecimal addresses
    live; code units above U+00FF are left as they are by this model. *)

Definition in_range (lo hi c : N) : bool := ((lo <=? c) && (c <=? hi))%N.

Definition lower_unit (c : N) : N :=
  if in_range 65 90 c then (c + 32)%N                       (* A-Z *)
  else if in_range 192 222 c && negb (c =? 215)%N then (c + 32)%N
  else c.

(** U+00DF (sharp s) has the two-unit upper case "SS"; U+00B5 (micro) and
    U+00FF map out of the block, to U+039C and U+0178. *)
Definition upper_unit (c : N) : jsstring :=
  if in_range 97 122 c then [(c - 32)%N]                    (* a-z *)
  else if in_range 224 254 c && negb (c =? 247)%N then [(c - 32)%N]
  else if (c =? 223)%N then [83%N; 83%N]
  else if (c =? 181)%N then [924%N]
  else if (c =? 255)%N then [376%N]
  else [c].

Definition toLowerCase (s : jsstring) : jsstring := map lower_unit s.
Definition toUpperCase (s : jsstring) : jsstring := concat (map upper_unit s).

(** Strings of Basic Latin characters (U+0000 to U+007F). *)
Definition basic_latin (s : jsstring) : bool := forallb (fun c => (c <? 128)%N) s.

(** ** Values and completions *)

(** The values an address parameter takes: a string, or an absent one. *)
Inductive value :=
  | VUndefined
  | VNull
  | VString (s : jsstring).

Inductive error := TypeError | Error.

Inductive completion (A : Type) :=
  | Normal (a : A)
  | Throw (e : error).
Arguments Normal {A} a.
Arguments Throw {A} e.

(** Completions sequence like the statements of a function body: the
    first [Throw] ends the evaluation. *)
Global Instance completion_ret : MRet completion := @Normal.
Global Instance completion_bind : MBind completion := fun A B k c =>
  match c with
  | Normal a => k a
  | Throw e => Throw e
  end.

(** [ToBoolean]: [undefined], [null] and the empty string are falsy. *)
Definition ToBoolean (v : value) : bool :=
  match v with
  | VUndefined | VNull => false
  | VString s => negb (jslength s =? 0)
  end.

Definition falsy (v : value) : Prop := ToBoolean v = false.

(** The receiver of a string method or property: reading a member of
    [undefined] or [null] raises a TypeError. *)
Definition receiver (v : value) : completion jsstring :=
  match v with
  | VString s => Normal s
  | VUndefined | VNull => Throw TypeError
  end.

(** Strict equality [===]. *)
Definition strict_eq (v w : value) : bool :=
  match v, w with
  | VUndefined, VUndefined => true
  | VNull, VNull => true
  | VString s, VString t => bool_decide (s = t)
  | _, _ => false
  end.

Global Instance value_eq_dec : EqDecision value.
Proof. solve_decision. Defined.

(** ** Address helpers *)

Definition ANY_ADDRESS : jsstring := js "0xFFfFfFffFFfffFFfFFfFFFFFffFFFffffFfFFFfF".
Definition EMPTY_ADDRESS : jsstring := js "0x0000000000000000000000000000000000000000".

(** [v && v.toLowerCase()] *)
Definition and_toLowerCase (v : value) : completion value :=
  if ToBoolean v then s ← receiver v; Normal (VString (toLowerCase s))
  else Normal v.

Definition addressesEqual (first second : value) : completion bool :=
  first ← and_toLowerCase first;
  second ← and_toLowerCase second;
  Normal (strict_eq first second).

(** Optional parameters: [None] is the omitted argument, which takes the
    default of the signature. *)
Definition shortenAddress (address : value) (charsLength : option Z)
  : completion jsstring :=
  let charsLength := default 4 charsLength in
  let prefixLength := 2 in
  if negb (ToBoolean address) then Normal []
  else
    a ← receiver address;
    if jslength a <? charsLength * 2 + prefixLength then Normal a
    else
      Normal (slice a 0 (Some (charsLength + prefixLength))
                ++ ellipsis
                ++ slice a (- charsLength) None).

Definition isAnyAddress (address : value) : bool :=
  strict_eq address (VString ANY_ADDRESS).

Definition isEmptyAddress (address : value) : bool :=
  strict_eq address (VString EMPTY_ADDRESS).

Definition getAnyAddress : value := VString ANY_ADDRESS.
Definition getEmptyAddress : value := VString EMPTY_ADDRESS.

(** ** Numbers *)

(** The numbers that occur here are NaN and exact decimal fractions. *)
Inductive number :=
  | NaN
  | Number (q : Q).

Definition is_digit (c : N) : bool := in_range 48 57 c.

Definition digit_value (c : N) : Z := Z.of_N c - 48.

Definition digits_value (s : jsstring) : Z :=
  fold_left (fun acc c => acc * 10 + digit_value c) s 0.

(** [StrWhiteSpaceChar]: white space and line terminators. *)
Definition is_white_space (c : N) : bool :=
  in_range 9 13 c || (c =? 32)%N || (c =? 160)%N || (c =? 5760)%N
  || in_range 8192 8202 c || (c =? 8232)%N || (c =? 8233)%N
  || (c =? 8239)%N || (c =? 8287)%N || (c =? 12288)%N || (c =? 65279)%N.

Fixpoint drop_while (p : N -> bool) (s : jsstring) : jsstring :=
  match s with
  | [] => []
  | c :: r => if p c then drop_while p r else s
  end.

Definition trim (s : jsstring) : jsstring :=
  rev (drop_while is_white_space (rev (drop_while is_white_space s))).

(** Splits at the first [c]: the part before it and, when [c] occurs, the
    part after it. *)
Fixpoint split_at (c : N) (s : jsstring) : jsstring * option jsstring :=
  match s with
  | [] => ([], None)
  | x :: r =>
      if N.eqb x c then ([], Some r)
      else let '(a, b) := split_at c r in (x :: a, b)
  end.

(** [ToNumber] of a string, for the decimal literals of the
    [StringNumericLiteral] grammar: optional white space around an
    optionally signed [digits], [digits.], [.digits] or [digits.digits];
    the empty string is 0 and anything else NaN.  Exponents, radix
    prefixes and [Infinity] are left out: none fits the three code units
    [c.c] that [fromWeiRounded] converts. *)
Definition StringToNumber (s : jsstring) : number :=
  let t := trim s in
  match t with
  | [] => Number 0
  | c :: r =>
      let '(sign, body) :=
        if (c =? 43)%N then (1, r) else if (c =? 45)%N then (-1, r) else (1, t) in
      let '(ip, fp) := split_at 46 body in
      let fp := default [] fp in
      if forallb is_digit ip && forallb is_digit fp
         && negb (bool_decide (ip = []) && bool_decide (fp = []))
      then Number (inject_Z sign
                   * (inject_Z (digits_value ip)
                      + inject_Z (digits_value fp) / inject_Z (10 ^ jslength fp)))%Q
      else NaN
  end.

(** [Math.round]: the integer nearest to [x], ties towards +infinity. *)
Definition Math_round (x : number) : number :=
  match x with
  | NaN => NaN
  | Number q => Number (inject_Z (Qfloor (q + (1 # 2))))
  end.

Fixpoint uint_units (u : Decimal.uint) : jsstring :=
  match u with
  | Decimal.Nil => []
  | Decimal.D0 u => 48%N :: uint_units u
  | Decimal.D1 u => 49%N :: uint_units u
  | Decimal.D2 u => 50%N :: uint_units u
  | Decimal.D3 u => 51%N :: uint_units u
  | Decimal.D4 u => 52%N :: uint_units u
  | Decimal.D5 u => 53%N :: uint_units u
  | Decimal.D6 u => 54%N :: uint_units u
  | Decimal.D7 u => 55%N :: uint_units u
  | Decimal.D8 u => 56%N :: uint_units u
  | Decimal.D9 u => 57%N :: uint_units u
  end.

(** The decimal numeral of an integer. *)
Definition Z_to_string (z : Z) : jsstring :=
  match Z.to_int z with
  | Decimal.Pos u => uint_units u
  | Decimal.Neg u => 45%N :: uint_units u
  end.

(** [ToString] of a number with an integral value, which is what
    [Math.round] returns; the zero of either sign prints as "0". *)
Definition NumberToString (x : number) : jsstring :=
  match x with
  | NaN => js "NaN"
  | Number q => Z_to_string (Qfloor q)
  end.

(** ** Unit conversion *)

Module Web3.
Module utils.

(** Modelled from the spec: [Web3.utils.fromWei] is the unit conversion of
    the web3 library, which is not part of this repository.  It scales a
    non-negative decimal integer string exactly by the unit's power of
    ten: the whole part, then, unless the fraction is zero, a point and
    the fraction padded to the unit's width without its trailing zeros.
    A string that is not a decimal integer, or an unknown unit, raises. *)
Definition unitMap : list (jsstring * Z) :=
  [ (js "wei", 0); (js "kwei", 3); (js "mwei", 6); (js "gwei", 9);
    (js "szabo", 12); (js "finney", 15); (js "ether", 18) ].

Definition getValueOfUnit (unit : jsstring) : option Z :=
  snd <$> find (fun e => bool_decide (fst e = unit)) unitMap.

Definition pad_zeros (width : Z) (s : jsstring) : jsstring :=
  replicate (Z.to_nat (width - jslength s)) 48%N ++ s.

(** A string of digits without its trailing zeros; a single "0" when
    every digit is zero. *)
Definition strip_zeros (s : jsstring) : jsstring :=
  match rev (drop_while (N.eqb 48) (rev s)) with
  | [] => take 1 s
  | t => t
  end.

Definition fromWei (wei unit : jsstring) : completion jsstring :=
  match getValueOfUnit unit with
  | None => Throw Error
  | Some k =>
      if forallb is_digit wei && negb (bool_decide (wei = [])) then
        let n := digits_value wei in
        let base := 10 ^ k in
        let baseLength := if k =? 0 then 1 else k in
        let fraction := strip_zeros (pad_zeros baseLength (Z_to_string (n mod base))) in
        let whole := Z_to_string (n / base) in
        Normal (whole ++ (if bool_decide (fraction = js "0") then []
                          else js "." ++ fraction))
      else Throw Error
  end.

End utils.
End Web3.

Section FromWeiRounded.

(** The conversion routine is injected: what follows holds for any
    implementation of it.  The code unit 46 is the point '.'. *)
Variable fromWei : jsstring -> jsstring -> completion jsstring.

(** The callee of a method call: [undefined] has no members. *)
Definition member (c : option N) : completion jsstring :=
  match c with
  | Some c => Normal [c]
  | None => Throw TypeError
  end.

(** ['.' + x] converts an indexed character to a string. *)
Definition ToString_char (c : option N) : jsstring :=
  match c with
  | Some c => [c]
  | None => js "undefined"
  end.

Definition fromWeiRounded (wei : jsstring) (digits : option Z) (unit : option jsstring)
  : completion jsstring :=
  let digits := default 2 digits in
  let unit := default (js "ether") unit in
  unitValue ← fromWei wei unit;
  let decimalIndex := indexOf unitValue 46 in
  if negb (decimalIndex =? -1) then
    let unitValue := substring unitValue 0 (decimalIndex + digits + 2) in
    kept ← member (code_unit_at unitValue (jslength unitValue - 2));
    let roundedLastDigit :=
      kept ++ (js "." ++ ToString_char (code_unit_at unitValue (jslength unitValue - 1))) in
    Normal (substring unitValue 0 (jslength unitValue - 2)
              ++ NumberToString (Math_round (StringToNumber roundedLastDigit)))
  else Normal unitValue.

End FromWeiRounded.

(** ** The client cache *)

(** Objects live in a heap and are known by their identity; two
    providers with equal fields are two objects. *)
Definition loc := positive.

Inductive object :=
  | Provider (fields : list (jsstring * jsstring))
  | Web3Instance (provider : loc).

(** The module state: the heap and the [WeakMap] [cache], keyed by the
    identity of the provider.  An entry is only ever dropped once its key
    is unreachable, which no caller can observe, so none is dropped
    here. *)
Record state := State {
  heap : gmap loc object;
  cache : gmap loc loc;
}.

(** The state when the module has been loaded. *)
Definition initial : state := State ∅ ∅.

Section ClientCache.

(** Whether [new Web3(provider)] completes on this heap; a provider it
    rejects makes the constructor raise. *)
Variable accepts : loc -> gmap loc object -> bool.

Definition new_Web3 (provider : loc) (h : gmap loc object)
  : completion loc * gmap loc object :=
  if accepts provider h then
    let web3 := fresh (dom h) in
    (Normal web3, <[web3 := Web3Instance provider]> h)
  else (Throw Error, h).

Definition getWeb3 (provider : loc) (s : state) : completion loc * state :=
  match cache s !! provider with
  | Some web3 => (Normal web3, s)
  | None =>
      match new_Web3 provider (heap s) with
      | (Normal web3, h) => (Normal web3, State h (<[provider := web3]> (cache s)))
      | (Throw e, h) => (Throw e, State h (cache s))
      end
  end.

(** What a program does to the state: it calls [getWeb3] on an object it
    holds, or creates a provider. *)
Inductive step : state -> state -> Prop :=
  | step_getWeb3 provider s r s' :
      is_Some (heap s !! provider) ->
      getWeb3 provider s = (r, s') ->
      step s s'
  | step_new_provider fields s :
      step s (State (<[fresh (dom (heap s)) := Provider fields]> (heap s)) (cache s)).

Definition reachable (s : state) : Prop := rtc step initial s.

(** The cache and the instances on the heap mirror each other. *)
Definition cache_inv (s : state) : Prop :=
  forall provider web3,
    cache s !! provider = Some web3 <-> heap s !! web3 = Some (Web3Instance provider).

End ClientCache.

(** Two providers with the same fields, for the examples. *)
Definition provider_fields : list (jsstring * jsstring) :=
  [(js "host", js "ws://localhost:8545")].

(** They are created one after the other from the initial state. *)
Definition one_provider : state :=
  State (<[fresh (dom (heap initial)) := Provider provider_fields]> (heap initial))
        (cache initial).
Definition two_providers : state :=
  State (<[fresh (dom (heap one_provider)) := Provider provider_fields]> (heap one_provider))
        (cache one_provider).

(** What [addressesEqual] compares: an operand after its [&&]
    expression, for the statements below. *)
Definition lowered (v : value) : value :=
  match v with
  | VString s => VString (toLowerCase s)
  | VUndefined | VNull => v
  end.

(** Closed goals about concrete inputs are settled by running the
    definitions. *)
Ltac evaluate := vm_compute; first [reflexivity | discriminate | lia].

(** * Properties *)

(** ** Strings *)

Lemma jslength_nonneg (s : jsstring) : 0 <= jslength s.
Proof. unfold jslength. lia. Qed.

Lemma jslength_app (s t : jsstring) : jslength (s ++ t) = jslength s + jslength t.
Proof. unfold jslength. rewrite length_app. lia. Qed.

(** From index 0, [substring] keeps a prefix. *)
Lemma substring_0 (s : jsstring) (e : Z) : substring s 0 e = take (Z.to_nat e) s.
Proof.
  unfold substring.
  pose proof (jslength_nonneg s) as Hlen.
  replace (clamp (jslength s) 0) with 0 by (unfold clamp; lia).
  replace (Z.min 0 (clamp (jslength s) e)) with 0 by (unfold clamp; lia).
  replace (Z.max 0 (clamp (jslength s) e)) with (clamp (jslength s) e)
    by (unfold clamp; lia).
  change (Z.to_nat 0) with 0%nat. rewrite drop_0.
  destruct (Z.le_gt_cases e (jslength s)) as [Hle | Hgt].
  - f_equal. unfold clamp. lia.
  - unfold jslength, clamp in *. rewrite !take_ge by lia. reflexivity.
Qed.

Lemma slice_prefix (s : jsstring) (n : Z) :
  0 <= n <= jslength s -> slice s 0 (Some n) = take (Z.to_nat n) s.
Proof.
  intros Hn. unfold slice, relative.
  destruct (Z.ltb_spec 0 0); [lia |].
  destruct (Z.ltb_spec n 0); [lia |].
  rewrite (Z.min_l 0), Z.min_l, Z.sub_0_r, Z.max_l by lia.
  reflexivity.
Qed.

Lemma slice_suffix (s : jsstring) (n : Z) :
  1 <= n <= jslength s -> slice s (- n) None = drop (Z.to_nat (jslength s - n)) s.
Proof.
  intros Hn. unfold slice, relative.
  destruct (Z.ltb_spec (- n) 0); [| lia].
  rewrite (Z.max_l (jslength s + - n)) by lia.
  rewrite Z.max_l by lia.
  rewrite take_ge; [f_equal; lia |].
  rewrite length_drop. unfold jslength in *. lia.
Qed.

(** [slice(-0)] is [slice(0)]: the whole string. *)
Lemma slice_minus_zero (s : jsstring) : slice s (- 0) None = s.
Proof.
  unfold slice, relative. simpl.
  pose proof (jslength_nonneg s).
  rewrite Z.min_l, Z.sub_0_r, Z.max_l by lia.
  unfold jslength. rewrite Nat2Z.id. apply firstn_all.
Qed.

(** ** Strict equality *)

Lemma strict_eq_spec (v w : value) : strict_eq v w = true <-> v = w.
Proof.
  destruct v, w; simpl; try (split; congruence).
  rewrite bool_decide_eq_true. split; congruence.
Qed.

Lemma strict_eq_decide (v w : value) : strict_eq v w = bool_decide (v = w).
Proof.
  destruct (strict_eq v w) eqn:E; symmetry.
  - apply bool_decide_eq_true, strict_eq_spec, E.
  - apply bool_decide_eq_false. intros H%strict_eq_spec. congruence.
Qed.

Lemma falsy_cases (v : value) :
  falsy v <-> v = VUndefined \/ v = VNull \/ v = VString [].
Proof.
  unfold falsy. split.
  - destruct v as [| | [| c s]]; simpl; intros H; auto; discriminate.
  - intros [-> | [-> | ->]]; reflexivity.
Qed.

(** A falsy operand of [&&] is the value of the expression. *)
Lemma and_toLowerCase_falsy (v : value) : falsy v -> and_toLowerCase v = Normal v.
Proof. unfold falsy, and_toLowerCase. intros ->. reflexivity. Qed.

Lemma and_toLowerCase_string (s : jsstring) :
  and_toLowerCase (VString s) = Normal (VString (toLowerCase s)).
Proof. destruct s; reflexivity. Qed.

(** ** Case conversion on Basic Latin *)

Lemma lower_upper_unit (c : N) :
  (c < 128)%N -> map lower_unit (upper_unit c) = [lower_unit c].
Proof.
  intros Hc. unfold upper_unit, lower_unit, in_range.
  repeat match goal with
  | |- context [(?a <=? ?b)%N] => destruct (N.leb_spec a b); simpl
  | |- context [(?a =? ?b)%N] => destruct (N.eqb_spec a b); simpl
  end; try lia; try reflexivity; f_equal; lia.
Qed.

Lemma toLowerCase_toUpperCase (a : jsstring) :
  basic_latin a = true -> toLowerCase (toUpperCase a) = toLowerCase a.
Proof.
  unfold toLowerCase, toUpperCase, basic_latin.
  induction a as [| c a IH]; simpl; [reflexivity |].
  intros [Hc Ha]%andb_prop. apply N.ltb_lt in Hc.
  rewrite map_app, lower_upper_unit, IH by assumption. reflexivity.
Qed.

(** ** shortenAddress *)

Lemma shortenAddress_falsy (address : value) (charsLength : option Z) :
  falsy address -> shortenAddress address charsLength = Normal [].
Proof. unfold falsy, shortenAddress. intros ->. reflexivity. Qed.

Lemma shortenAddress_short (a : jsstring) (charsLength : option Z) :
  a <> [] ->
  jslength a < default 4 charsLength * 2 + 2 ->
  shortenAddress (VString a) charsLength = Normal a.
Proof.
  intros Ha Hlen. unfold shortenAddress.
  destruct a as [| c a]; [congruence |]. cbn [ToBoolean negb receiver mbind completion_bind].
  replace (jslength (c :: a) =? 0) with false
    by (symmetry; apply Z.eqb_neq; unfold jslength; simpl; lia).
  cbn [negb]. destruct (Z.ltb_spec (jslength (c :: a)) (default 4 charsLength * 2 + 2)); [reflexivity | lia].
Qed.

(** With at least one character on each side, a long enough address is
    cut to its first [charsLength + 2] and last [charsLength] units around
    one ellipsis: [charsLength * 2 + 3] units. *)
Lemma shortenAddress_long (a : jsstring) (n : Z) :
  1 <= n ->
  n * 2 + 2 <= jslength a ->
  shortenAddress (VString a) (Some n)
  = Normal (take (Z.to_nat (n + 2)) a ++ ellipsis ++ drop (Z.to_nat (jslength a - n)) a)
  /\ jslength (take (Z.to_nat (n + 2)) a ++ ellipsis ++ drop (Z.to_nat (jslength a - n)) a)
     = n * 2 + 3.
Proof.
  intros Hn Hlen. split.
  - unfold shortenAddress. cbv zeta. change (default 4 (Some n)) with n.
    destruct a as [| c a]; [unfold jslength in Hlen; simpl in Hlen; lia |].
    cbn [ToBoolean negb receiver mbind completion_bind].
    replace (jslength (c :: a) =? 0) with false
      by (symmetry; apply Z.eqb_neq; unfold jslength; simpl; lia).
    cbn [negb]. destruct (Z.ltb_spec (jslength (c :: a)) (n * 2 + 2)); [lia |].
    rewrite slice_prefix, slice_suffix by lia. reflexivity.
  - rewrite !jslength_app. unfold jslength, ellipsis in *.
    rewrite length_take, length_drop. cbn [length]. lia.
Qed.

(** The examples of the documentation. *)
Example shortenAddress_doc1 :
  shortenAddress (VString (js "0x19731977931271")) None
  = Normal (js "0x1973" ++ ellipsis ++ js "1271").
Proof. reflexivity. Qed.

Example shortenAddress_doc2 :
  shortenAddress (VString (js "0x19731977931271")) (Some 2)
  = Normal (js "0x19" ++ ellipsis ++ js "71").
Proof. reflexivity. Qed.

Example shortenAddress_doc3 :
  shortenAddress (VString (js "0x197319")) None = Normal (js "0x197319").
Proof. reflexivity. Qed.

Example shortenAddress_empty : shortenAddress (VString []) None = Normal [].
Proof. reflexivity. Qed.

(** C5: [shortenAddress] at [charsLength = 0], where the claimed shape
    (first 2 units, one ellipsis, last 0 units: 3 units in all) is not what
    the code returns: [slice(-0)] is the whole address, so "0x1234" becomes
    "0x", the ellipsis and "0x1234" again, 9 units. *)
Theorem shortenAddress_zero_chars :
  shortenAddress (VString (js "0x1234")) (Some 0)
  = Normal (js "0x" ++ ellipsis ++ js "0x1234")
  /\ jslength (js "0x" ++ ellipsis ++ js "0x1234") = 9
  /\ shortenAddress (VString (js "0x1234")) (Some 0) <> Normal (js "0x" ++ ellipsis).
Proof. split; [reflexivity | split; [reflexivity | discriminate]]. Qed.

(** C10: [shortenAddress] on an address of exactly [charsLength * 2 + 2]
    units at [charsLength = 0]: "0x" becomes "0x", the ellipsis and "0x"
    again, 5 units and not the claimed [charsLength * 2 + 3 = 3]. *)
Theorem shortenAddress_exact_zero_chars :
  jslength (js "0x") = 0 * 2 + 2
  /\ shortenAddress (VString (js "0x")) (Some 0) = Normal (js "0x" ++ ellipsis ++ js "0x")
  /\ jslength (js "0x" ++ ellipsis ++ js "0x") = 5.
Proof. repeat split. Qed.

(** For one character or more on each side, an address of exactly
    [charsLength * 2 + 2] units comes back one unit longer. *)
Lemma shortenAddress_exact_lengthens (a : jsstring) (n : Z) :
  1 <= n ->
  jslength a = n * 2 + 2 ->
  exists r, shortenAddress (VString a) (Some n) = Normal r
            /\ jslength r = n * 2 + 3 /\ jslength r = jslength a + 1.
Proof.
  intros Hn Hlen.
  destruct (shortenAddress_long a n) as [Heq Hr]; [lia | lia |].
  eexists. split; [exact Heq |]. split; [exact Hr | lia].
Qed.

(** ** addressesEqual *)

(** C6, as stated, fails: the sharp s (U+00DF) upper-cases to "SS", whose
    lower case "ss" is not the sharp s. *)
Lemma sharp_s_not_equal_to_upper :
  ~ (forall a : jsstring,
       addressesEqual (VString a) (VString (toUpperCase a)) = Normal true).
Proof. intros H. specialize (H [223%N]). discriminate H. Qed.

(** C6, amended: for every string [a] of Basic Latin characters (every
    hexadecimal address is one), [addressesEqual(a, a.toUpperCase())] is
    true. *)
Theorem addressesEqual_upper (a : jsstring) :
  basic_latin a = true ->
  addressesEqual (VString a) (VString (toUpperCase a)) = Normal true.
Proof.
  intros Ha. unfold addressesEqual.
  rewrite !and_toLowerCase_string. cbn [mbind completion_bind].
  rewrite toLowerCase_toUpperCase by assumption.
  f_equal. apply strict_eq_spec. reflexivity.
Qed.

Lemma addressesEqual_upper_witness :
  basic_latin ANY_ADDRESS = true
  /\ addressesEqual (VString ANY_ADDRESS) (VString (toUpperCase ANY_ADDRESS)) = Normal true.
Proof. split; [reflexivity | apply addressesEqual_upper; reflexivity]. Defined.

(** C7: a falsy input reaches the comparison unchanged, so
    [addressesEqual(null, null)] is true, [addressesEqual(null, "")] is
    false, and two falsy inputs are equal exactly when they are the same
    value. *)
Theorem addressesEqual_falsy :
  addressesEqual VNull VNull = Normal true
  /\ addressesEqual VNull (VString []) = Normal false
  /\ (forall v, falsy v -> and_toLowerCase v = Normal v)
  /\ (forall v w, falsy v -> falsy w ->
        addressesEqual v w = Normal (bool_decide (v = w))).
Proof.
  split; [reflexivity |]. split; [reflexivity |].
  split; [exact and_toLowerCase_falsy |].
  intros v w Hv Hw. unfold addressesEqual.
  rewrite !and_toLowerCase_falsy by assumption. cbn [mbind completion_bind].
  f_equal. apply strict_eq_decide.
Qed.

Lemma addressesEqual_falsy_witness :
  falsy VUndefined /\ falsy (VString [])
  /\ addressesEqual VUndefined (VString []) = Normal false.
Proof.
  split; [reflexivity |]. split; [reflexivity |].
  apply (proj2 (proj2 (proj2 addressesEqual_falsy)) VUndefined (VString []));
    reflexivity.
Defined.

(** ** Sentinel addresses *)

(** C8: [isAnyAddress] and [isEmptyAddress] hold exactly of the strings
    [getAnyAddress()] and [getEmptyAddress()] return, by strict equality:
    the other sentinel and a lower-cased ANY_ADDRESS are refused. *)
Theorem sentinel_checks_exact :
  (forall a, isAnyAddress a = true <-> a = getAnyAddress)
  /\ (forall a, isEmptyAddress a = true <-> a = getEmptyAddress)
  /\ isAnyAddress getAnyAddress = true
  /\ isAnyAddress getEmptyAddress = false
  /\ isEmptyAddress getEmptyAddress = true
  /\ isAnyAddress (VString (toLowerCase ANY_ADDRESS)) = false
  /\ isAnyAddress (VString (toUpperCase ANY_ADDRESS)) = false.
Proof.
  split; [intros a; apply strict_eq_spec |].
  split; [intros a; apply strict_eq_spec |].
  repeat split.
Qed.

Lemma sentinel_checks_exact_witness :
  isAnyAddress (VString ANY_ADDRESS) = true.
Proof. apply (proj1 sentinel_checks_exact). reflexivity. Defined.

(** ** The rounding step of fromWeiRounded *)

Lemma indexOf_from_app (ip r : jsstring) (c : N) (i : Z) :
  c ∉ ip -> indexOf_from (ip ++ c :: r) c i = i + jslength ip.
Proof.
  revert i. induction ip as [| x ip IH]; intros i Hnot; simpl.
  - rewrite N.eqb_refl. unfold jslength. simpl. lia.
  - apply not_elem_of_cons in Hnot as [Hne Hnot].
    destruct (N.eqb_spec x c) as [-> | _]; [congruence |].
    rewrite IH by assumption. unfold jslength. simpl length. lia.
Qed.

(** The index of the first point is the length of the integer part. *)
Lemma indexOf_point (ip r : jsstring) :
  46%N ∉ ip -> indexOf (ip ++ 46%N :: r) 46 = jslength ip.
Proof. intros H. unfold indexOf. rewrite indexOf_from_app by assumption. lia. Qed.

Lemma code_unit_at_app_r (p t : jsstring) (i : Z) :
  0 <= i -> code_unit_at (p ++ t) (jslength p + i) = code_unit_at t i.
Proof.
  intros Hi. unfold code_unit_at, jslength.
  destruct (Z.ltb_spec (Z.of_nat (length p) + i) 0); [lia |].
  destruct (Z.ltb_spec i 0); [lia |].
  rewrite lookup_app_r by lia. f_equal. lia.
Qed.

Lemma is_digit_cases (c : N) :
  is_digit c = true ->
  (c = 48 \/ c = 49 \/ c = 50 \/ c = 51 \/ c = 52
   \/ c = 53 \/ c = 54 \/ c = 55 \/ c = 56 \/ c = 57)%N.
Proof.
  unfold is_digit, in_range. intros [H1 H2]%andb_prop.
  apply N.leb_le in H1, H2. lia.
Qed.

(** Rounding the literal [d.e] of two digits: [d], plus one when [e] is 5
    or more. *)
Lemma round_two_digits (d e : N) :
  is_digit d = true -> is_digit e = true ->
  NumberToString (Math_round (StringToNumber ([d] ++ js "." ++ [e])))
  = Z_to_string (digit_value d + (if 5 <=? digit_value e then 1 else 0)).
Proof.
  intros Hd He.
  destruct (is_digit_cases d Hd) as [-> | [-> | [-> | [-> | [-> | [-> | [-> | [-> | [-> | ->]]]]]]]]];
    destruct (is_digit_cases e He) as [-> | [-> | [-> | [-> | [-> | [-> | [-> | [-> | [-> | ->]]]]]]]]];
    vm_compute; reflexivity.
Qed.

(** A literal that starts with two points is no number. *)
Lemma point_point_NaN (c : N) : StringToNumber ([46%N] ++ js "." ++ [c]) = NaN.
Proof.
  unfold StringToNumber, trim. change ([46%N] ++ js "." ++ [c]) with [46%N; 46%N; c].
  cbn [drop_while]. change (is_white_space 46) with false. cbn [rev app drop_while].
  destruct (is_white_space c); reflexivity.
Qed.

Lemma indexOf_from_absent (s : jsstring) (c : N) (i : Z) :
  0 <= i -> indexOf_from s c i = -1 -> c ∉ s.
Proof.
  revert i. induction s as [| x s IH]; intros i Hi H; simpl in H.
  - apply not_elem_of_nil.
  - destruct (N.eqb_spec x c) as [-> | Hne]; [lia |].
    apply not_elem_of_cons. split; [congruence |].
    apply (IH (i + 1)); [lia | assumption].
Qed.

Section FromWeiRoundedFacts.

Variable fromWei : jsstring -> jsstring -> completion jsstring.

(** The branch taken when the converted string has a point, on a
    truncated string that ends in the two units [d] and [e]. *)
Lemma fromWeiRounded_last_two wei digits unit (u p : jsstring) (d e : N) :
  fromWei wei (default (js "ether") unit) = Normal u ->
  indexOf u 46 <> -1 ->
  substring u 0 (indexOf u 46 + default 2 digits + 2) = p ++ [d; e] ->
  fromWeiRounded fromWei wei digits unit
  = Normal (p ++ NumberToString (Math_round (StringToNumber ([d] ++ js "." ++ [e])))).
Proof.
  intros Hconv Hpoint Htrunc. unfold fromWeiRounded. cbv zeta.
  rewrite Hconv. cbn [mbind completion_bind].
  destruct (Z.eqb_spec (indexOf u 46) (-1)) as [| _]; [contradiction |].
  cbn [negb]. rewrite Htrunc.
  assert (Hlen : jslength (p ++ [d; e]) = jslength p + 2)
    by (rewrite jslength_app; reflexivity).
  replace (jslength (p ++ [d; e]) - 2) with (jslength p + 0) by lia.
  replace (jslength (p ++ [d; e]) - 1) with (jslength p + 1) by lia.
  rewrite !code_unit_at_app_r by lia.
  cbn [code_unit_at Z.ltb Z.compare Z.to_nat Pos.to_nat Pos.iter_op Init.Nat.add
       lookup list_lookup member ToString_char mbind completion_bind].
  rewrite substring_0, Z.add_0_r. unfold jslength. rewrite Nat2Z.id.
  rewrite take_app_length. reflexivity.
Qed.

End FromWeiRoundedFacts.

(** C1: [fromWeiRounded("1230000000000000000", 2, "ether")] on the code.
    The conversion gives "1.23", which the truncation to five units leaves
    whole; the rounding step then takes its last two units for the literal
    "2.3" and the result is "1.2", not the "1.23" of the claim. *)
Theorem fromWeiRounded_1_23 :
  (forall fromWei,
     fromWei (js "1230000000000000000") (js "ether") = Normal (js "1.23") ->
     fromWeiRounded fromWei (js "1230000000000000000") (Some 2) (Some (js "ether"))
     = Normal (js "1.2"))
  /\ Web3.utils.fromWei (js "1230000000000000000") (js "ether") = Normal (js "1.23")
  /\ fromWeiRounded Web3.utils.fromWei (js "1230000000000000000") (Some 2) (Some (js "ether"))
     <> Normal (js "1.23").
Proof.
  split; [| split; [evaluate | evaluate]].
  intros fromWei H.
  rewrite (fromWeiRounded_last_two fromWei _ _ _ (js "1.23") (js "1.") 50 51);
    [evaluate | exact H | evaluate | evaluate].
Qed.

Lemma fromWeiRounded_1_23_witness :
  fromWeiRounded Web3.utils.fromWei (js "1230000000000000000") (Some 2) (Some (js "ether"))
  = Normal (js "1.2").
Proof. apply (proj1 fromWeiRounded_1_23). evaluate. Defined.

(** C2: when the converted string has a point it is cut to
    [decimalIndex + digits + 2] units and its last two units [d] and [e]
    are replaced by the numeral of [Math.round] of the literal [d.e]; for
    two digits that is [d], or [d + 1] when [e] is 5 or more (half rounds
    up).  From 9.5 on the numeral is the two units "10", put in place
    without a carry: "996000000000000000" wei with 2 digits in ether give
    "0.910". *)
Theorem fromWeiRounded_rounding :
  (forall fromWei wei digits unit (u p : jsstring) (d e : N),
     fromWei wei (default (js "ether") unit) = Normal u ->
     indexOf u 46 <> -1 ->
     substring u 0 (indexOf u 46 + default 2 digits + 2) = p ++ [d; e] ->
     substring u 0 (indexOf u 46 + default 2 digits + 2)
     = take (Z.to_nat (indexOf u 46 + default 2 digits + 2)) u
     /\ fromWeiRounded fromWei wei digits unit
        = Normal (p ++ NumberToString (Math_round (StringToNumber ([d] ++ js "." ++ [e]))))
     /\ (is_digit d = true -> is_digit e = true ->
         fromWeiRounded fromWei wei digits unit
         = Normal (p ++ Z_to_string (digit_value d + (if 5 <=? digit_value e then 1 else 0))))
     /\ (is_digit d = true -> is_digit e = true ->
         digit_value d = 9 -> 5 <= digit_value e ->
         fromWeiRounded fromWei wei digits unit = Normal (p ++ js "10")))
  /\ Web3.utils.fromWei (js "996000000000000000") (js "ether") = Normal (js "0.996")
  /\ fromWeiRounded Web3.utils.fromWei (js "996000000000000000") (Some 2) (Some (js "ether"))
     = Normal (js "0.910").
Proof.
  split; [| split; evaluate].
  intros fromWei wei digits unit u p d e Hconv Hpoint Htrunc.
  pose proof (fromWeiRounded_last_two fromWei wei digits unit u p d e
                Hconv Hpoint Htrunc) as Hres.
  split; [apply substring_0 |]. split; [exact Hres |].
  split.
  - intros Hd He. rewrite Hres, round_two_digits by assumption. reflexivity.
  - intros Hd He H9 H5. rewrite Hres, round_two_digits, H9 by assumption.
    destruct (Z.leb_spec 5 (digit_value e)); [reflexivity | lia].
Qed.

Lemma fromWeiRounded_rounding_witness :
  fromWeiRounded Web3.utils.fromWei (js "1995000000000000000") (Some 2) None
  = Normal (js "1.910").
Proof.
  refine (proj2 (proj2 (proj2 (proj1 fromWeiRounded_rounding
    Web3.utils.fromWei (js "1995000000000000000") (Some 2) None
    (js "1.995") (js "1.9") 57%N 53%N _ _ _))) _ _ _ _);
    evaluate.
Defined.

(** C3: a converted string without a point is returned as it is, whatever
    [digits]; [fromWeiRounded("1000000000000000000", 2, "ether")] is "1". *)
Theorem fromWeiRounded_no_fraction :
  (forall fromWei wei digits unit (u : jsstring),
     fromWei wei (default (js "ether") unit) = Normal u ->
     indexOf u 46 = -1 ->
     fromWeiRounded fromWei wei digits unit = Normal u)
  /\ fromWeiRounded Web3.utils.fromWei (js "1000000000000000000") (Some 2) (Some (js "ether"))
     = Normal (js "1").
Proof.
  split; [| evaluate].
  intros fromWei wei digits unit u Hconv Hpoint. unfold fromWeiRounded. cbv zeta.
  rewrite Hconv. cbn [mbind completion_bind]. rewrite Hpoint. reflexivity.
Qed.

Lemma fromWeiRounded_no_fraction_witness :
  fromWeiRounded Web3.utils.fromWei (js "5000") (Some 7) (Some (js "kwei"))
  = Normal (js "5").
Proof. apply (proj1 fromWeiRounded_no_fraction); evaluate. Defined.

(** C4: on a converted string with one fractional digit and [digits >= 0]
    the unit before the last of the truncated string is the point, the
    rounded literal is NaN, and the result is the integer part followed by
    "NaN": "0NaN" for "100000000000000000" wei with the default digits,
    which is no decimal numeral. *)
Theorem fromWeiRounded_one_fraction_digit :
  (forall fromWei wei digits unit (ip : jsstring) (d : N),
     fromWei wei (default (js "ether") unit) = Normal (ip ++ js "." ++ [d]) ->
     indexOf ip 46 = -1 ->
     0 <= default 2 digits ->
     let u := ip ++ js "." ++ [d] in
     let t := substring u 0 (indexOf u 46 + default 2 digits + 2) in
     code_unit_at t (jslength t - 2) = Some 46%N
     /\ Math_round (StringToNumber ([46%N] ++ js "." ++ [d])) = NaN
     /\ fromWeiRounded fromWei wei digits unit = Normal (ip ++ js "NaN"))
  /\ Web3.utils.fromWei (js "100000000000000000") (js "ether") = Normal (js "0.1")
  /\ fromWeiRounded Web3.utils.fromWei (js "100000000000000000") None None
     = Normal (js "0NaN")
  /\ forallb (fun c => is_digit c || (c =? 46)%N) (js "0NaN") = false.
Proof.
  split; [| repeat split; evaluate].
  intros fromWei wei digits unit ip d Hconv Hip Hdigits u t.
  assert (Hidx : indexOf u 46 = jslength ip).
  { apply indexOf_point. apply (indexOf_from_absent ip 46 0); [lia | exact Hip]. }
  assert (Ht : t = ip ++ [46%N; d]).
  { unfold t. rewrite substring_0, Hidx. apply take_ge.
    unfold u, jslength. rewrite length_app. simpl. lia. }
  pose proof (jslength_nonneg ip) as Hnn.
  split; [| split].
  - rewrite Ht, jslength_app.
    replace (jslength ip + jslength [46%N; d] - 2) with (jslength ip + 0)
      by (unfold jslength; simpl; lia).
    rewrite code_unit_at_app_r by lia. reflexivity.
  - rewrite point_point_NaN. reflexivity.
  - rewrite (fromWeiRounded_last_two fromWei wei digits unit u ip 46 d).
    + rewrite point_point_NaN. reflexivity.
    + exact Hconv.
    + rewrite Hidx. lia.
    + exact Ht.
Qed.

Lemma fromWeiRounded_one_fraction_digit_witness :
  fromWeiRounded Web3.utils.fromWei (js "2500000000") (Some 0) (Some (js "gwei"))
  = Normal (js "2NaN").
Proof.
  refine (proj2 (proj2 (proj1 fromWeiRounded_one_fraction_digit
    Web3.utils.fromWei (js "2500000000") (Some 0) (Some (js "gwei"))
    (js "2") 53%N _ _ _)));
    evaluate.
Defined.

(** ** The client cache *)

Section ClientCacheFacts.

Variable accepts : loc -> gmap loc object -> bool.

Lemma cache_inv_initial : cache_inv initial.
Proof.
  intros provider web3. unfold initial. cbn [cache heap].
  rewrite !lookup_empty. split; discriminate.
Qed.

Lemma getWeb3_hit provider s web3 :
  cache s !! provider = Some web3 -> getWeb3 accepts provider s = (Normal web3, s).
Proof. intros H. unfold getWeb3. rewrite H. reflexivity. Qed.

(** What a call returns is in the cache afterwards. *)
Lemma getWeb3_caches provider s web3 s' :
  getWeb3 accepts provider s = (Normal web3, s') -> cache s' !! provider = Some web3.
Proof.
  unfold getWeb3, new_Web3.
  destruct (cache s !! provider) as [w |] eqn:Hc.
  - intros [= <- <-]. exact Hc.
  - destruct (accepts provider (heap s)); intros [= <- <-].
    cbn [cache]. apply lookup_insert_eq.
Qed.

(** A call never changes an entry of the cache. *)
Lemma getWeb3_keeps provider s r s' p w :
  getWeb3 accepts provider s = (r, s') ->
  cache s !! p = Some w -> cache s' !! p = Some w.
Proof.
  unfold getWeb3, new_Web3.
  destruct (cache s !! provider) as [w' |] eqn:Hc.
  - intros [= <- <-]. trivial.
  - destruct (accepts provider (heap s)); intros [= <- <-] Hp; cbn [cache].
    + rewrite lookup_insert_ne; [exact Hp | congruence].
    + exact Hp.
Qed.

Lemma getWeb3_inv provider s r s' :
  cache_inv s -> getWeb3 accepts provider s = (r, s') -> cache_inv s'.
Proof.
  intros Hinv. unfold getWeb3, new_Web3.
  destruct (cache s !! provider) as [w' |] eqn:Hc.
  - intros [= <- <-]. exact Hinv.
  - destruct (accepts provider (heap s)); intros [= <- <-]; [| exact Hinv].
    assert (Hfresh : heap s !! fresh (dom (heap s)) = None)
      by (apply not_elem_of_dom, is_fresh).
    intros p w. cbn [cache heap].
    destruct (decide (provider = p)) as [<- | Hp];
      destruct (decide (fresh (dom (heap s)) = w)) as [<- | Hw].
    + rewrite !lookup_insert_eq. split; reflexivity.
    + rewrite lookup_insert_eq, lookup_insert_ne by assumption. split.
      * congruence.
      * intros H%Hinv. congruence.
    + rewrite lookup_insert_eq, lookup_insert_ne by assumption. split.
      * intros H%Hinv. congruence.
      * congruence.
    + rewrite !lookup_insert_ne by assumption. apply Hinv.
Qed.

Lemma step_inv s s' : cache_inv s -> step accepts s s' -> cache_inv s'.
Proof.
  intros Hinv Hstep. destruct Hstep as [provider s r s' _ Hcall | fields s].
  - exact (getWeb3_inv provider s r s' Hinv Hcall).
  - assert (Hfresh : heap s !! fresh (dom (heap s)) = None)
      by (apply not_elem_of_dom, is_fresh).
    intros p w. cbn [cache heap].
    destruct (decide (fresh (dom (heap s)) = w)) as [<- | Hw].
    + rewrite lookup_insert_eq. split.
      * intros H%Hinv. congruence.
      * discriminate.
    + rewrite lookup_insert_ne by assumption. apply Hinv.
Qed.

Lemma steps_inv s s' : cache_inv s -> rtc (step accepts) s s' -> cache_inv s'.
Proof. intros Hinv Hsteps. induction Hsteps; eauto using step_inv. Qed.

Lemma reachable_inv s : reachable accepts s -> cache_inv s.
Proof. apply steps_inv, cache_inv_initial. Qed.

Lemma step_keeps s s' p w :
  step accepts s s' -> cache s !! p = Some w -> cache s' !! p = Some w.
Proof.
  intros [provider s0 r s0' _ Hcall | fields s0].
  - exact (getWeb3_keeps provider s0 r s0' p w Hcall).
  - trivial.
Qed.

Lemma steps_keep s s' p w :
  rtc (step accepts) s s' -> cache s !! p = Some w -> cache s' !! p = Some w.
Proof. intros Hsteps. induction Hsteps; eauto using step_keeps. Qed.

End ClientCacheFacts.

(** C9: in every state the program can reach, a call of [getWeb3] that
    returns gives a Web3 instance built for its provider, which is then
    the provider's entry in the cache: the entry that was there, with no
    construction and no change of state, or else a newly constructed
    object.  Any later call with that provider returns the identical
    instance and changes nothing; two different providers get different
    instances, whatever their fields; the heap never holds two instances
    built for one provider; and a call returns whenever the provider is
    cached or the constructor accepts it. *)
Theorem getWeb3_cached accepts (s : state) :
  reachable accepts s ->
  (forall p w s1,
     getWeb3 accepts p s = (Normal w, s1) ->
     heap s1 !! w = Some (Web3Instance p)
     /\ cache s1 !! p = Some w
     /\ (forall w0, cache s !! p = Some w0 -> w = w0 /\ s1 = s)
     /\ (cache s !! p = None ->
         heap s !! w = None /\ heap s1 = <[w := Web3Instance p]> (heap s))
     /\ (forall s2,
           rtc (step accepts) s1 s2 ->
           getWeb3 accepts p s2 = (Normal w, s2)))
  /\ (forall p q wp wq s1 s2 s3,
        p <> q ->
        getWeb3 accepts p s = (Normal wp, s1) ->
        rtc (step accepts) s1 s2 ->
        getWeb3 accepts q s2 = (Normal wq, s3) ->
        wp <> wq
        /\ heap s3 !! wp = Some (Web3Instance p)
        /\ heap s3 !! wq = Some (Web3Instance q))
  /\ (forall p w1 w2,
        heap s !! w1 = Some (Web3Instance p) ->
        heap s !! w2 = Some (Web3Instance p) ->
        w1 = w2)
  /\ (forall p,
        is_Some (cache s !! p) \/ accepts p (heap s) = true ->
        exists w s1, getWeb3 accepts p s = (Normal w, s1)).
Proof.
  intros Hinv%reachable_inv. split; [| split; [| split]].
  - intros p w s1 Hcall.
    pose proof (getWeb3_inv accepts p s _ s1 Hinv Hcall) as Hinv1.
    pose proof (getWeb3_caches accepts p s w s1 Hcall) as Hcached.
    split; [apply Hinv1, Hcached |]. split; [exact Hcached |].
    split; [| split].
    + intros w0 Hhit. rewrite (getWeb3_hit accepts p s w0 Hhit) in Hcall.
      injection Hcall as <- <-. split; reflexivity.
    + intros Hmiss. revert Hcall. unfold getWeb3, new_Web3. rewrite Hmiss.
      destruct (accepts p (heap s)); intros [= <- <-].
      split; [apply not_elem_of_dom, is_fresh | reflexivity].
    + intros s2 Hsteps. apply getWeb3_hit.
      eapply steps_keep; [exact Hsteps | exact Hcached].
  - intros p q wp wq s1 s2 s3 Hpq Hp Hsteps Hq.
    assert (Hinv3 : cache_inv s3).
    { eapply getWeb3_inv; [| exact Hq].
      eapply steps_inv; [| exact Hsteps].
      eapply getWeb3_inv; [exact Hinv | exact Hp]. }
    assert (Hcp : cache s3 !! p = Some wp).
    { eapply getWeb3_keeps; [exact Hq |].
      eapply steps_keep; [exact Hsteps |].
      eapply getWeb3_caches, Hp. }
    assert (Hcq : cache s3 !! q = Some wq) by (eapply getWeb3_caches, Hq).
    apply Hinv3 in Hcp, Hcq.
    split; [intros -> ; congruence |]. split; assumption.
  - intros p w1 w2 H1%Hinv H2%Hinv. congruence.
  - intros p [[w Hhit] | Hacc].
    + exists w, s. apply getWeb3_hit, Hhit.
    + unfold getWeb3, new_Web3.
      destruct (cache s !! p) as [w |]; [eauto |].
      rewrite Hacc. eauto.
Qed.

Lemma getWeb3_cached_witness :
  reachable (fun _ _ => true) two_providers
  /\ heap two_providers !! 1%positive = heap two_providers !! 2%positive
  /\ exists wp wq s1 s2,
       getWeb3 (fun _ _ => true) 1%positive two_providers = (Normal wp, s1)
       /\ getWeb3 (fun _ _ => true) 2%positive s1 = (Normal wq, s2)
       /\ heap s1 !! wp = Some (Web3Instance 1%positive)
       /\ cache s1 !! 1%positive = Some wp
       /\ heap two_providers !! wp = None
       /\ wp <> wq
       /\ heap s2 !! wq = Some (Web3Instance 2%positive)
       /\ getWeb3 (fun _ _ => true) 1%positive s2 = (Normal wp, s2).
Proof.
  assert (Hreach : reachable (fun _ _ => true) two_providers).
  { eapply rtc_l; [apply step_new_provider |].
    eapply rtc_l; [apply step_new_provider |]. apply rtc_refl. }
  split; [exact Hreach |]. split; [vm_compute; reflexivity |].
  destruct (getWeb3 (fun _ _ => true) 1%positive two_providers) as [r1 s1] eqn:H1.
  destruct (getWeb3 (fun _ _ => true) 2%positive s1) as [r2 s2] eqn:H2.
  vm_compute in H1. injection H1 as <- <-.
  vm_compute in H2. injection H2 as <- <-.
  eexists _, _, _, _. split; [reflexivity |]. split; [reflexivity |].
  destruct (getWeb3_cached (fun _ _ => true) two_providers Hreach)
    as (Hfirst & Hdiff & _ & _).
  edestruct (Hfirst 1%positive) as (Hinst & Hcached & _ & Hnew & Hsame);
    [vm_compute; reflexivity |].
  edestruct (Hdiff 1%positive 2%positive) as (Hne & _ & Hinst2);
    [discriminate | vm_compute; reflexivity | apply rtc_refl
     | vm_compute; reflexivity |].
  split; [exact Hinst |]. split; [exact Hcached |].
  split; [apply Hnew; vm_compute; reflexivity |].
  split; [exact Hne |]. split; [exact Hinst2 |].
  apply Hsame.
  eapply rtc_l; [| apply rtc_refl].
  eapply (step_getWeb3 _ 2%positive); [| vm_compute; reflexivity].
  vm_compute. eauto.
Defined.

(** * Further properties *)

(** ** addressesEqual as a relation *)

Lemma and_toLowerCase_lowered (v : value) : and_toLowerCase v = Normal (lowered v).
Proof. destruct v as [| | [| c s]]; reflexivity. Qed.

Lemma addressesEqual_lowered (a b : value) :
  addressesEqual a b = Normal (bool_decide (lowered a = lowered b)).
Proof.
  unfold addressesEqual. rewrite !and_toLowerCase_lowered.
  cbn [mbind completion_bind]. f_equal. apply strict_eq_decide.
Qed.

Lemma addressesEqual_true (a b : value) :
  addressesEqual a b = Normal true <-> lowered a = lowered b.
Proof.
  rewrite addressesEqual_lowered. split.
  - intros [= H]. apply bool_decide_eq_true in H. exact H.
  - intros H. f_equal. apply bool_decide_eq_true. exact H.
Qed.

(** X1: over strings and absent values [addressesEqual] never raises and
    is an equivalence: reflexive, symmetric and transitive. *)
Theorem addressesEqual_equivalence :
  (forall a b, exists r, addressesEqual a b = Normal r)
  /\ (forall a, addressesEqual a a = Normal true)
  /\ (forall a b, addressesEqual a b = addressesEqual b a)
  /\ (forall a b c,
        addressesEqual a b = Normal true ->
        addressesEqual b c = Normal true ->
        addressesEqual a c = Normal true).
Proof.
  split; [| split; [| split]].
  - intros a b. rewrite addressesEqual_lowered. eauto.
  - intros a. apply addressesEqual_true. reflexivity.
  - intros a b. rewrite !addressesEqual_lowered. f_equal.
    apply bool_decide_ext. split; congruence.
  - intros a b c Hab%addressesEqual_true Hbc%addressesEqual_true.
    apply addressesEqual_true. congruence.
Qed.

Lemma addressesEqual_equivalence_witness :
  addressesEqual (VString (js "0xAB")) (VString (js "0xab")) = Normal true.
Proof.
  apply (proj2 (proj2 (proj2 addressesEqual_equivalence))
           (VString (js "0xAB")) (VString (js "0xaB")) (VString (js "0xab")));
    reflexivity.
Defined.

(** X2: a non-empty string is never equal to an absent or empty operand
    ([undefined], [null] or the empty string), on either side. *)
Theorem addressesEqual_string_absent (s : jsstring) (v : value) :
  s <> [] -> falsy v ->
  addressesEqual (VString s) v = Normal false
  /\ addressesEqual v (VString s) = Normal false.
Proof.
  intros Hs Hv. rewrite !addressesEqual_lowered.
  apply falsy_cases in Hv.
  destruct s as [| c s]; [congruence |].
  destruct Hv as [-> | [-> | ->]]; split; reflexivity.
Qed.

Lemma addressesEqual_string_absent_witness :
  addressesEqual (VString EMPTY_ADDRESS) VNull = Normal false
  /\ addressesEqual VNull (VString EMPTY_ADDRESS) = Normal false.
Proof. apply addressesEqual_string_absent; [discriminate | reflexivity]. Defined.

Lemma lower_unit_idempotent (c : N) : lower_unit (lower_unit c) = lower_unit c.
Proof.
  remember (lower_unit c) as l eqn:El.
  unfold lower_unit, in_range in El.
  repeat match type of El with
  | context [(?a <=? ?b)%N] => destruct (N.leb_spec a b); simpl in El
  | context [(?a =? ?b)%N] => destruct (N.eqb_spec a b); simpl in El
  end; subst l; unfold lower_unit, in_range;
  repeat match goal with
  | |- context [(?a <=? ?b)%N] => destruct (N.leb_spec a b); simpl
  | |- context [(?a =? ?b)%N] => destruct (N.eqb_spec a b); simpl
  end; try lia; reflexivity.
Qed.

Lemma toLowerCase_idempotent (a : jsstring) :
  toLowerCase (toLowerCase a) = toLowerCase a.
Proof.
  unfold toLowerCase. rewrite map_map. apply map_ext. apply lower_unit_idempotent.
Qed.

(** X3: changing the case of a Basic Latin operand does not change the
    result: [addressesEqual(a.toUpperCase(), b)] and
    [addressesEqual(a.toLowerCase(), b)] are [addressesEqual(a, b)]. *)
Theorem addressesEqual_case_invariant (a : jsstring) (b : value) :
  basic_latin a = true ->
  addressesEqual (VString (toUpperCase a)) b = addressesEqual (VString a) b
  /\ addressesEqual (VString (toLowerCase a)) b = addressesEqual (VString a) b.
Proof.
  intros Ha. rewrite !addressesEqual_lowered. cbn [lowered].
  rewrite toLowerCase_toUpperCase by assumption.
  rewrite toLowerCase_idempotent. split; reflexivity.
Qed.

Lemma addressesEqual_case_invariant_witness :
  addressesEqual (VString (toUpperCase ANY_ADDRESS)) (VString (toLowerCase ANY_ADDRESS))
  = addressesEqual (VString ANY_ADDRESS) (VString (toLowerCase ANY_ADDRESS)).
Proof.
  apply (addressesEqual_case_invariant ANY_ADDRESS (VString (toLowerCase ANY_ADDRESS))).
  reflexivity.
Defined.

(** ** Sentinel addresses and addressesEqual *)

(** X4: no value is both sentinels: [isAnyAddress] and [isEmptyAddress]
    never hold together, and nothing is [addressesEqual] to both
    [getAnyAddress()] and [getEmptyAddress()]. *)
Theorem sentinels_exclusive (a : value) :
  ~ (isAnyAddress a = true /\ isEmptyAddress a = true)
  /\ ~ (addressesEqual a getAnyAddress = Normal true
        /\ addressesEqual a getEmptyAddress = Normal true).
Proof.
  split.
  - unfold isAnyAddress, isEmptyAddress.
    intros [H1%strict_eq_spec H2%strict_eq_spec]. subst a. discriminate H2.
  - intros [H1%addressesEqual_true H2%addressesEqual_true].
    rewrite H1 in H2. vm_compute in H2. discriminate H2.
Qed.

(** X5: the sentinel checks are stricter than [addressesEqual]: what
    [isAnyAddress] or [isEmptyAddress] accepts is [addressesEqual] to the
    sentinel, but the lower-cased ANY_ADDRESS and the upper-cased
    EMPTY_ADDRESS are [addressesEqual] to theirs and refused by the
    checks. *)
Theorem sentinel_checks_stricter :
  (forall a, isAnyAddress a = true -> addressesEqual a getAnyAddress = Normal true)
  /\ (forall a, isEmptyAddress a = true -> addressesEqual a getEmptyAddress = Normal true)
  /\ addressesEqual (VString (toLowerCase ANY_ADDRESS)) getAnyAddress = Normal true
  /\ isAnyAddress (VString (toLowerCase ANY_ADDRESS)) = false
  /\ addressesEqual (VString (toUpperCase EMPTY_ADDRESS)) getEmptyAddress = Normal true
  /\ isEmptyAddress (VString (toUpperCase EMPTY_ADDRESS)) = false.
Proof.
  split; [| split; [| repeat split]].
  - intros a H%strict_eq_spec. subst a. reflexivity.
  - intros a H%strict_eq_spec. subst a. reflexivity.
Qed.

Lemma sentinel_checks_stricter_witness :
  addressesEqual getAnyAddress getAnyAddress = Normal true.
Proof. apply (proj1 sentinel_checks_stricter). reflexivity. Defined.

(** ** shortenAddress: bounds and composition *)

Lemma jslength_zero (s : jsstring) : jslength s = 0 -> s = [].
Proof. destruct s; [reflexivity |]. unfold jslength. simpl. lia. Qed.

(** The three outcomes of a call with one character or more on each
    side. *)
Lemma shortenAddress_cases (address : value) (n : Z) :
  1 <= n ->
  (falsy address /\ shortenAddress address (Some n) = Normal [])
  \/ (exists a, address = VString a /\ a <> [] /\ jslength a < n * 2 + 2
                /\ shortenAddress address (Some n) = Normal a)
  \/ (exists a, address = VString a /\ n * 2 + 2 <= jslength a
                /\ shortenAddress address (Some n)
                   = Normal (take (Z.to_nat (n + 2)) a ++ ellipsis
                               ++ drop (Z.to_nat (jslength a - n)) a)).
Proof.
  intros Hn. destruct (ToBoolean address) eqn:Hb.
  - right. destruct address as [| | a]; try discriminate Hb.
    assert (Ha : a <> []) by (intros ->; discriminate Hb).
    destruct (Z.lt_ge_cases (jslength a) (n * 2 + 2)) as [Hlt | Hge].
    + left. exists a. repeat split; try assumption.
      apply shortenAddress_short; assumption.
    + right. exists a. repeat split; try assumption.
      apply shortenAddress_long; assumption.
  - left. split; [exact Hb |]. apply shortenAddress_falsy. exact Hb.
Qed.

(** X6: with one character or more on each side [shortenAddress] never
    raises, also on [null] and [undefined], and its result has at most
    [charsLength * 2 + 3] code units. *)
Theorem shortenAddress_bounded (address : value) (n : Z) :
  1 <= n ->
  exists r, shortenAddress address (Some n) = Normal r /\ jslength r <= n * 2 + 3.
Proof.
  intros Hn.
  destruct (shortenAddress_cases address n Hn)
    as [[_ Heq] | [(a & _ & _ & Hlt & Heq) | (a & -> & Hge & Heq)]].
  - exists []. split; [exact Heq |]. unfold jslength. simpl. lia.
  - exists a. split; [exact Heq | lia].
  - eexists. split; [exact Heq |].
    destruct (shortenAddress_long a n Hn Hge) as [_ Hlen]. lia.
Qed.

Lemma shortenAddress_bounded_witness :
  exists r, shortenAddress (VString ANY_ADDRESS) (Some 6) = Normal r
            /\ jslength r <= 6 * 2 + 3.
Proof. apply shortenAddress_bounded. lia. Defined.

(** X7: shortening is idempotent for one character or more on each side:
    shortening a result again with the same [charsLength] gives it
    back. *)
Theorem shortenAddress_idempotent (address : value) (n : Z) (r : jsstring) :
  1 <= n ->
  shortenAddress address (Some n) = Normal r ->
  shortenAddress (VString r) (Some n) = Normal r.
Proof.
  intros Hn Hr.
  destruct (shortenAddress_cases address n Hn)
    as [[_ Heq] | [(a & -> & _ & _ & Heq) | (a & -> & Hge & Heq)]];
    rewrite Heq in Hr; injection Hr as <-; try reflexivity; try assumption.
  destruct (shortenAddress_long a n Hn Hge) as [_ Hlen].
  set (P := take (Z.to_nat (n + 2)) a) in *.
  set (S := drop (Z.to_nat (jslength a - n)) a) in *.
  assert (HP : length P = Z.to_nat (n + 2)).
  { unfold P. rewrite length_take. unfold jslength in Hge. lia. }
  change (P ++ 8230%N :: S) with (P ++ ellipsis ++ S).
  destruct (shortenAddress_long (P ++ ellipsis ++ S) n Hn) as [Heq' _]; [lia |].
  rewrite Heq'. f_equal. f_equal.
  - apply take_app_length'. symmetry. exact HP.
  - f_equal. rewrite Hlen.
    rewrite (app_assoc P ellipsis S).
    replace (Z.to_nat (n * 2 + 3 - n)) with (length (P ++ ellipsis))
      by (rewrite length_app, HP; unfold ellipsis; simpl; lia).
    apply drop_app_length.
Qed.

Lemma shortenAddress_idempotent_witness :
  shortenAddress (VString (js "0x1973" ++ ellipsis ++ js "1271")) (Some 4)
  = Normal (js "0x1973" ++ ellipsis ++ js "1271").
Proof.
  apply (shortenAddress_idempotent (VString (js "0x19731977931271")) 4);
    [lia | reflexivity].
Defined.

(** X8: a shortened address keeps both ends of the original: its first
    [charsLength + 2] and last [charsLength] code units are those of the
    address ([slice(0, charsLength + 2)] and [slice(-charsLength)] agree),
    with the ellipsis at index [charsLength + 2] between them. *)
Theorem shortenAddress_keeps_ends (a r : jsstring) (n : Z) :
  1 <= n ->
  n * 2 + 2 <= jslength a ->
  shortenAddress (VString a) (Some n) = Normal r ->
  slice r 0 (Some (n + 2)) = slice a 0 (Some (n + 2))
  /\ code_unit_at r (n + 2) = Some 8230%N
  /\ slice r (- n) None = slice a (- n) None.
Proof.
  intros Hn Hge Hr.
  destruct (shortenAddress_long a n Hn Hge) as [Heq Hlen].
  rewrite Heq in Hr. injection Hr as <-.
  set (P := take (Z.to_nat (n + 2)) a) in *.
  set (S := drop (Z.to_nat (jslength a - n)) a) in *.
  assert (HP : length P = Z.to_nat (n + 2)).
  { unfold P. rewrite length_take. unfold jslength in Hge. lia. }
  change (P ++ 8230%N :: S) with (P ++ ellipsis ++ S).
  rewrite !slice_prefix, !slice_suffix by lia. fold P S.
  split; [| split].
  - apply take_app_length'. symmetry. exact HP.
  - replace (n + 2) with (jslength P + 0) by (unfold jslength; lia).
    rewrite code_unit_at_app_r by lia. reflexivity.
  - rewrite Hlen, (app_assoc P ellipsis S).
    replace (Z.to_nat (n * 2 + 3 - n)) with (length (P ++ ellipsis))
      by (rewrite length_app, HP; unfold ellipsis; simpl; lia).
    apply drop_app_length.
Qed.

Lemma shortenAddress_keeps_ends_witness :
  slice (js "0x19" ++ ellipsis ++ js "71") 0 (Some (2 + 2))
  = slice (js "0x19731977931271") 0 (Some (2 + 2))
  /\ code_unit_at (js "0x19" ++ ellipsis ++ js "71") (2 + 2) = Some 8230%N
  /\ slice (js "0x19" ++ ellipsis ++ js "71") (- 2) None
     = slice (js "0x19731977931271") (- 2) None.
Proof.
  apply (shortenAddress_keeps_ends (js "0x19731977931271") _ 2);
    [lia | vm_compute; discriminate | reflexivity].
Defined.

(** X9: with [charsLength = 0] every address of two code units or more
    comes back longer: its first two units, the ellipsis and then the
    whole address again, three units more than the input. *)
Theorem shortenAddress_zero_lengthens (a : jsstring) :
  2 <= jslength a ->
  shortenAddress (VString a) (Some 0) = Normal (take 2 a ++ ellipsis ++ a)
  /\ jslength (take 2 a ++ ellipsis ++ a) = jslength a + 3.
Proof.
  intros Hlen. split.
  - unfold shortenAddress. cbv zeta. change (default 4 (Some 0)) with 0.
    destruct a as [| c a]; [unfold jslength in Hlen; simpl in Hlen; lia |].
    cbn [ToBoolean negb receiver mbind completion_bind].
    replace (jslength (c :: a) =? 0) with false
      by (symmetry; apply Z.eqb_neq; unfold jslength; simpl; lia).
    cbn [negb]. destruct (Z.ltb_spec (jslength (c :: a)) (0 * 2 + 2)); [lia |].
    rewrite slice_prefix, slice_minus_zero by lia. reflexivity.
  - rewrite !jslength_app. unfold jslength, ellipsis in *.
    rewrite length_take. cbn [length]. lia.
Qed.

Lemma shortenAddress_zero_lengthens_witness :
  shortenAddress (VString EMPTY_ADDRESS) (Some 0)
  = Normal (take 2 EMPTY_ADDRESS ++ ellipsis ++ EMPTY_ADDRESS)
  /\ jslength (take 2 EMPTY_ADDRESS ++ ellipsis ++ EMPTY_ADDRESS)
     = jslength EMPTY_ADDRESS + 3.
Proof. apply shortenAddress_zero_lengthens. vm_compute. discriminate. Defined.

(** ** fromWeiRounded on a whole part and a fraction *)

Lemma indexOf_from_range (s : jsstring) (c : N) (i : Z) :
  indexOf_from s c i = -1 \/ i <= indexOf_from s c i < i + jslength s.
Proof.
  revert i. induction s as [| x s IH]; intros i; simpl; [left; reflexivity |].
  assert (Hlen : jslength (x :: s) = jslength s + 1)
    by (unfold jslength; simpl length; lia).
  pose proof (jslength_nonneg s).
  destruct (N.eqb x c); [right; lia |].
  destruct (IH (i + 1)) as [-> | ?]; [left; reflexivity | right; lia].
Qed.

(** The truncation of [ip.f] to [k] fractional units. *)
Lemma truncated_fraction (ip f : jsstring) (k : Z) :
  indexOf ip 46 = -1 -> 0 <= k ->
  indexOf (ip ++ js "." ++ f) 46 = jslength ip
  /\ substring (ip ++ js "." ++ f) 0 (indexOf (ip ++ js "." ++ f) 46 + k + 1)
     = ip ++ js "." ++ take (Z.to_nat k) f.
Proof.
  intros Hip Hk.
  assert (Hidx : indexOf (ip ++ js "." ++ f) 46 = jslength ip).
  { apply indexOf_point. apply (indexOf_from_absent ip 46 0); [lia | exact Hip]. }
  split; [exact Hidx |].
  rewrite substring_0, Hidx. unfold jslength.
  replace (Z.to_nat (Z.of_nat (length ip) + k + 1))
    with (length ip + S (Z.to_nat k))%nat by lia.
  rewrite take_app_add. reflexivity.
Qed.

Lemma digits_value_snoc (s : jsstring) (c : N) :
  digits_value (s ++ [c]) = digits_value s * 10 + digit_value c.
Proof. unfold digits_value. rewrite fold_left_app. reflexivity. Qed.

Lemma round_tenth (x e : Z) :
  0 <= e <= 9 -> (x * 10 + e + 5) / 10 = x + (if 5 <=? e then 1 else 0).
Proof.
  intros He. destruct (Z.leb_spec 5 e); symmetry.
  - apply (Z.div_unique _ _ _ (e - 5)); lia.
  - apply (Z.div_unique _ _ _ (e + 5)); lia.
Qed.

(** Without a carry the rounded numeral is one digit. *)
Lemma numeral_no_carry (d e : N) :
  is_digit d = true -> is_digit e = true ->
  (digit_value d = 9 -> digit_value e < 5) ->
  Z_to_string (digit_value d + (if 5 <=? digit_value e then 1 else 0))
  = [if 5 <=? digit_value e then (d + 1)%N else d]
  /\ is_digit (if 5 <=? digit_value e then (d + 1)%N else d) = true
  /\ digit_value (if 5 <=? digit_value e then (d + 1)%N else d)
     = digit_value d + (if 5 <=? digit_value e then 1 else 0)
  /\ 0 <= digit_value e <= 9.
Proof.
  intros Hd He H.
  destruct (is_digit_cases d Hd) as [-> | [-> | [-> | [-> | [-> | [-> | [-> | [-> | [-> | ->]]]]]]]]];
    destruct (is_digit_cases e He) as [-> | [-> | [-> | [-> | [-> | [-> | [-> | [-> | [-> | ->]]]]]]]]];
    try (vm_compute; repeat split; discriminate);
    exfalso; specialize (H eq_refl); vm_compute in H; discriminate H.
Qed.

(** X10: when the converted string has more than [digits] fractional
    digits ([digits >= 1]) and the kept digit does not carry, the result is
    the string rounded half up to exactly [digits] fractional digits: the
    whole part, the point, the first [digits - 1] digits and the kept
    digit, one higher when the next digit is 5 or more. *)
Theorem fromWeiRounded_rounds_half_up
    fromWei wei digits unit (ip g rest : jsstring) (d e : N) :
  fromWei wei (default (js "ether") unit)
  = Normal (ip ++ js "." ++ g ++ [d; e] ++ rest) ->
  indexOf ip 46 = -1 ->
  jslength g + 1 = default 2 digits ->
  is_digit d = true -> is_digit e = true ->
  (digit_value d = 9 -> digit_value e < 5) ->
  let d' := if 5 <=? digit_value e then (d + 1)%N else d in
  fromWeiRounded fromWei wei digits unit = Normal (ip ++ js "." ++ g ++ [d'])
  /\ jslength (g ++ [d']) = default 2 digits
  /\ is_digit d' = true
  /\ digits_value (g ++ [d']) = (digits_value (g ++ [d; e]) + 5) / 10.
Proof.
  intros Hconv Hip Hdigits Hd He Hcarry d'.
  destruct (numeral_no_carry d e Hd He Hcarry) as (Hnum & Hd' & Hval & Hrange).
  pose proof (jslength_nonneg g) as Hg.
  pose proof (jslength_nonneg ip) as Hnn.
  destruct (truncated_fraction ip (g ++ [d; e] ++ rest) (default 2 digits + 1) Hip)
    as [Hidx Htrunc]; [lia |].
  split; [| split; [| split]].
  - rewrite (fromWeiRounded_last_two fromWei wei digits unit
               (ip ++ js "." ++ g ++ [d; e] ++ rest) (ip ++ js "." ++ g) d e).
    + rewrite round_two_digits, Hnum by assumption.
      rewrite <- !app_assoc. reflexivity.
    + exact Hconv.
    + rewrite Hidx. lia.
    + replace (indexOf (ip ++ js "." ++ g ++ [d; e] ++ rest) 46 + default 2 digits + 2)
        with (indexOf (ip ++ js "." ++ g ++ [d; e] ++ rest) 46
              + (default 2 digits + 1) + 1) by lia.
      rewrite Htrunc.
      replace (Z.to_nat (default 2 digits + 1)) with (length g + 2)%nat
        by (unfold jslength in Hdigits; lia).
      rewrite take_app_add. rewrite <- !app_assoc. reflexivity.
  - rewrite jslength_app. unfold jslength in *. simpl length. lia.
  - exact Hd'.
  - change (g ++ [d; e]) with (g ++ [d] ++ [e]). rewrite app_assoc.
    rewrite !digits_value_snoc. fold d'. unfold d'. rewrite Hval.
    rewrite round_tenth by assumption. lia.
Qed.

Lemma fromWeiRounded_rounds_half_up_witness :
  fromWeiRounded Web3.utils.fromWei (js "1234567000000000000") (Some 3) None
  = Normal (js "1.235").
Proof.
  apply (fromWeiRounded_rounds_half_up Web3.utils.fromWei
           (js "1234567000000000000") (Some 3) None
           (js "1") (js "23") (js "67") 52%N 53%N); evaluate.
Defined.

(** X11: with [digits = 0] a converted string that has a fraction never
    rounds to a whole number: the literal handed to [Math.round] starts
    with the point itself, and the result is the whole part followed by
    "NaN". *)
Theorem fromWeiRounded_zero_digits
    fromWei wei digits unit (ip rest : jsstring) (d : N) :
  fromWei wei (default (js "ether") unit) = Normal (ip ++ js "." ++ d :: rest) ->
  indexOf ip 46 = -1 ->
  default 2 digits = 0 ->
  fromWeiRounded fromWei wei digits unit = Normal (ip ++ js "NaN").
Proof.
  intros Hconv Hip Hdigits.
  pose proof (jslength_nonneg ip) as Hnn.
  destruct (truncated_fraction ip (d :: rest) 1 Hip) as [Hidx Htrunc]; [lia |].
  rewrite (fromWeiRounded_last_two fromWei wei digits unit
             (ip ++ js "." ++ d :: rest) ip 46 d).
  - rewrite point_point_NaN. reflexivity.
  - exact Hconv.
  - rewrite Hidx. lia.
  - rewrite Hdigits.
    replace (indexOf (ip ++ js "." ++ d :: rest) 46 + 0 + 2)
      with (indexOf (ip ++ js "." ++ d :: rest) 46 + 1 + 1) by lia.
    rewrite Htrunc. reflexivity.
Qed.

Lemma fromWeiRounded_zero_digits_witness :
  fromWeiRounded Web3.utils.fromWei (js "1999000000000000000") (Some 0) None
  = Normal (js "1NaN").
Proof.
  apply (fromWeiRounded_zero_digits Web3.utils.fromWei
           (js "1999000000000000000") (Some 0) None (js "1") (js "99") 57%N);
    evaluate.
Defined.

(** X12: a converted string whose fraction already fits in [digits]
    (two fractional digits or more, at most [digits]) is not returned as
    it is: nothing is cut, and the rounding step still replaces its last
    two digits by one rounded numeral, so the result differs from the
    converted string. *)
Theorem fromWeiRounded_short_fraction
    fromWei wei digits unit (ip g : jsstring) (d e : N) :
  fromWei wei (default (js "ether") unit) = Normal (ip ++ js "." ++ g ++ [d; e]) ->
  indexOf ip 46 = -1 ->
  jslength g + 2 <= default 2 digits ->
  is_digit d = true -> is_digit e = true ->
  fromWeiRounded fromWei wei digits unit
  = Normal (ip ++ js "." ++ g
              ++ Z_to_string (digit_value d + (if 5 <=? digit_value e then 1 else 0)))
  /\ fromWeiRounded fromWei wei digits unit <> Normal (ip ++ js "." ++ g ++ [d; e]).
Proof.
  intros Hconv Hip Hdigits Hd He.
  pose proof (jslength_nonneg ip) as Hnn.
  pose proof (jslength_nonneg g) as Hg.
  destruct (truncated_fraction ip (g ++ [d; e]) (default 2 digits + 1) Hip)
    as [Hidx Htrunc]; [lia |].
  assert (Hres : fromWeiRounded fromWei wei digits unit
    = Normal (ip ++ js "." ++ g
                ++ Z_to_string (digit_value d + (if 5 <=? digit_value e then 1 else 0)))).
  { rewrite (fromWeiRounded_last_two fromWei wei digits unit
               (ip ++ js "." ++ g ++ [d; e]) (ip ++ js "." ++ g) d e).
    - rewrite round_two_digits by assumption. rewrite <- !app_assoc. reflexivity.
    - exact Hconv.
    - rewrite Hidx. lia.
    - replace (indexOf (ip ++ js "." ++ g ++ [d; e]) 46 + default 2 digits + 2)
        with (indexOf (ip ++ js "." ++ g ++ [d; e]) 46 + (default 2 digits + 1) + 1)
        by lia.
      rewrite Htrunc, take_ge.
      + rewrite <- !app_assoc. reflexivity.
      + rewrite length_app. unfold jslength in Hdigits. simpl length. lia. }
  split; [exact Hres |].
  rewrite Hres. intros [= H].
  apply app_inv_head in H. change (js "." ++ ?x) with (46%N :: x) in H.
  injection H as H. apply app_inv_head in H. revert H.
  destruct (is_digit_cases d Hd) as [-> | [-> | [-> | [-> | [-> | [-> | [-> | [-> | [-> | ->]]]]]]]]];
    destruct (is_digit_cases e He) as [-> | [-> | [-> | [-> | [-> | [-> | [-> | [-> | [-> | ->]]]]]]]]];
    vm_compute; discriminate.
Qed.

Lemma fromWeiRounded_short_fraction_witness :
  fromWeiRounded Web3.utils.fromWei (js "1250000000000000000") (Some 4) None
  = Normal (js "1.3").
Proof.
  apply (fromWeiRounded_short_fraction Web3.utils.fromWei
           (js "1250000000000000000") (Some 4) None (js "1") [] 50%N 53%N);
    evaluate.
Defined.

(** X13: when [decimalIndex + digits + 2] is 1 or less (a negative
    [digits] that reaches back to the point) fewer than two units are
    left, the unit before the last is [undefined], and the call raises a
    TypeError. *)
Theorem fromWeiRounded_raises fromWei wei digits unit (u : jsstring) :
  fromWei wei (default (js "ether") unit) = Normal u ->
  indexOf u 46 <> -1 ->
  indexOf u 46 + default 2 digits + 2 <= 1 ->
  fromWeiRounded fromWei wei digits unit = Throw TypeError.
Proof.
  intros Hconv Hpoint Hend. unfold fromWeiRounded. cbv zeta.
  rewrite Hconv. cbn [mbind completion_bind].
  destruct (Z.eqb_spec (indexOf u 46) (-1)) as [| _]; [contradiction |].
  cbn [negb]. rewrite (substring_0 u).
  set (t := take (Z.to_nat (indexOf u 46 + default 2 digits + 2)) u).
  assert (Ht : jslength t <= 1).
  { unfold t, jslength. rewrite length_take. lia. }
  assert (Hkept : code_unit_at t (jslength t - 2) = None).
  { unfold code_unit_at. destruct (Z.ltb_spec (jslength t - 2) 0); [reflexivity | lia]. }
  rewrite Hkept. reflexivity.
Qed.

Lemma fromWeiRounded_raises_witness :
  fromWeiRounded Web3.utils.fromWei (js "1500000000000000000") (Some (-2)) None
  = Throw TypeError.
Proof.
  apply (fromWeiRounded_raises Web3.utils.fromWei
           (js "1500000000000000000") (Some (-2)) None (js "1.5")); evaluate.
Defined.

(** X14: for [digits >= 0] the function raises nothing of its own: when
    the conversion returns a string of two units or more, a result is
    returned. *)
Theorem fromWeiRounded_returns fromWei wei digits unit (u : jsstring) :
  fromWei wei (default (js "ether") unit) = Normal u ->
  2 <= jslength u ->
  0 <= default 2 digits ->
  exists r, fromWeiRounded fromWei wei digits unit = Normal r.
Proof.
  intros Hconv Hlen Hdigits. unfold fromWeiRounded. cbv zeta.
  rewrite Hconv. cbn [mbind completion_bind].
  destruct (Z.eqb_spec (indexOf u 46) (-1)) as [| Hpoint]; [eauto |].
  cbn [negb]. rewrite (substring_0 u).
  set (t := take (Z.to_nat (indexOf u 46 + default 2 digits + 2)) u).
  assert (Ht : 2 <= jslength t).
  { unfold t, jslength in *. rewrite length_take.
    destruct (indexOf_from_range u 46 0) as [H | H]; [contradiction |].
    unfold indexOf. lia. }
  assert (Hkept : exists c, code_unit_at t (jslength t - 2) = Some c).
  { unfold code_unit_at. destruct (Z.ltb_spec (jslength t - 2) 0); [lia |].
    apply lookup_lt_is_Some_2. unfold jslength in *. lia. }
  destruct Hkept as [c Hc]. rewrite Hc.
  cbn [member mbind completion_bind]. eauto.
Qed.

Lemma fromWeiRounded_returns_witness :
  exists r, fromWeiRounded Web3.utils.fromWei (js "42") (Some 9) (Some (js "gwei"))
            = Normal r.
Proof.
  apply (fromWeiRounded_returns Web3.utils.fromWei (js "42") (Some 9)
           (Some (js "gwei")) (js "0.000000042")); evaluate.
Defined.

(** ** The client cache: what a call touches *)

(** X15: a call of [getWeb3] for one provider leaves the cache entry of
    every other provider as it was; a call that finds its provider in the
    cache changes nothing at all, and a call whose constructor raises
    leaves the cache unchanged, so nothing is cached for a failure. *)
Theorem getWeb3_isolated accepts provider (s s' : state) r :
  getWeb3 accepts provider s = (r, s') ->
  (forall q, q <> provider -> cache s' !! q = cache s !! q)
  /\ (is_Some (cache s !! provider) -> s' = s)
  /\ (forall e, r = Throw e -> cache s' = cache s).
Proof.
  unfold getWeb3, new_Web3.
  destruct (cache s !! provider) as [w |] eqn:Hc.
  - intros [= <- <-]. split; [reflexivity |]. split; [reflexivity |]. reflexivity.
  - destruct (accepts provider (heap s)); intros [= <- <-]; cbn [cache].
    + split; [| split].
      * intros q Hq. apply lookup_insert_ne. congruence.
      * intros [w Hw]. discriminate Hw.
      * intros e [=].
    + split; [reflexivity |]. split; [| reflexivity].
      intros [w Hw]. discriminate Hw.
Qed.

Lemma getWeb3_isolated_witness :
  cache (getWeb3 (fun _ _ => true) 1%positive two_providers).2 !! 2%positive
  = cache two_providers !! 2%positive.
Proof.
  apply (proj1 (getWeb3_isolated (fun _ _ => true) 1%positive two_providers
                  (getWeb3 (fun _ _ => true) 1%positive two_providers).2
                  (getWeb3 (fun _ _ => true) 1%positive two_providers).1
                  (surjective_pairing _)));
    discriminate.
Defined.

(** X16: in every state the program can reach, the instance a call
    returns is the one built for that very provider, and when the provider
    was not in the cache it is a new object, one the heap did not hold
    before the call. *)
Theorem getWeb3_instance accepts provider (s s' : state) web3 :
  reachable accepts s ->
  getWeb3 accepts provider s = (Normal web3, s') ->
  heap s' !! web3 = Some (Web3Instance provider)
  /\ (cache s !! provider = None -> heap s !! web3 = None).
Proof.
  intros Hinv%reachable_inv Hcall.
  pose proof (getWeb3_inv accepts provider s _ s' Hinv Hcall) as Hinv'.
  split.
  - apply Hinv'. eapply getWeb3_caches, Hcall.
  - intros Hmiss. revert Hcall. unfold getWeb3, new_Web3. rewrite Hmiss.
    destruct (accepts provider (heap s)); intros [= <- <-].
    apply not_elem_of_dom, is_fresh.
Qed.

Lemma getWeb3_instance_witness :
  heap (getWeb3 (fun _ _ => true) 2%positive two_providers).2 !! 3%positive
  = Some (Web3Instance 2%positive)
  /\ (cache two_providers !! 2%positive = None -> heap two_providers !! 3%positive = None).
Proof.
  apply (getWeb3_instance (fun _ _ => true) 2%positive two_providers).
  - eapply rtc_l; [apply step_new_provider |].
    eapply rtc_l; [apply step_new_provider |]. apply rtc_refl.
  - vm_compute. reflexivity.
Defined.
